(** * A model of ethereumjs-stub-rpc-server (src/source/index.d.ts)

    The repository ships only the declaration file [index.d.ts]: the
    class [AbstractServer] with its test-facing operations, the three
    transport subclasses and [createStubServer].  The bodies of these
    operations are not in the repository; they are modelled here from
    their doc comments in [index.d.ts] and from the design document of
    the core (responder chain, expectation ledger, block store, core
    server).  Definitions whose behaviour is taken from that design
    document carry a doc comment starting with "Modelled from the spec". *)

From Stdlib Require Import List String ZArith Lia Bool Arith.
Import ListNotations.
Open Scope string_scope.
Open Scope list_scope.
Set Warnings "-register-all".

(** ** Data model *)

(** [JsonRpcRequest] (index.d.ts, lines 1-6). *)
Record JsonRpcRequest := mkRequest {
  jsonrpc : string;
  id : Z;
  method : string;
  params : list string
}.

(** JavaScript values a response generator may return ([any]): the
    doc comment of [addResponder] says a generator returns either an
    [Error] or an object/primitive used as the result, and returns
    [undefined] when it does not apply. *)
Inductive JsValue :=
  | JUndefined
  | JNull
  | JBool (b : bool)
  | JNum (n : Z)
  | JStr (s : string)
  | JObj (fields : list (string * string))
  | JError (message : string).

Definition is_undefined (v : JsValue) : bool :=
  match v with JUndefined => true | _ => false end.

Definition is_error (v : JsValue) : bool :=
  match v with JError _ => true | _ => false end.

(** [responseGenerator: (request: JsonRpcRequest) => any] *)
Definition Responder := JsonRpcRequest -> JsValue.

(** ** ResponderChain *)

(** Modelled from the spec (ResponderChain.resolve) and from the doc
    comment of [addResponder] (index.d.ts, line 30): responders are
    tried most recently added first; a responder that returns
    [undefined] does not apply and the next one is tried; the first
    result other than [undefined] is used and the remaining responders
    are skipped.  [None] is the "unhandled" outcome.  The argument is
    the chain in the order the responders were added. *)
Fixpoint first_answer (newest_first : list Responder) (req : JsonRpcRequest)
    : option JsValue :=
  match newest_first with
  | [] => None
  | g :: rest =>
      match g req with
      | JUndefined => first_answer rest req
      | v => Some v
      end
  end.

Definition resolve_chain (chain : list Responder) (req : JsonRpcRequest)
    : option JsValue :=
  first_answer (rev chain) req.

(** ** ExpectationLedger *)

Record Expectation := mkExpectation {
  matcher : JsonRpcRequest -> bool;
  requiredCount : nat;
  observedCount : nat
}.

(** Modelled from the spec (ExpectationLedger.observe): every
    expectation whose matcher matches the request has its
    [observedCount] incremented. *)
Definition observe_one (req : JsonRpcRequest) (e : Expectation) : Expectation :=
  if matcher e req
  then mkExpectation (matcher e) (requiredCount e) (S (observedCount e))
  else e.

Definition observe (exps : list Expectation) (req : JsonRpcRequest)
    : list Expectation :=
  map (observe_one req) exps.

(** One entry of the failure report of [assertExpectations]: the
    position of the expectation (its identity), expected and actual
    counts. *)
Record Mismatch := mkMismatch {
  mm_index : nat;
  mm_expected : nat;
  mm_actual : nat
}.

Inductive AssertOutcome :=
  | AssertOk
  | ExpectationUnmet (report : list Mismatch).

Fixpoint mismatches_from (i : nat) (exps : list Expectation) : list Mismatch :=
  match exps with
  | [] => []
  | e :: rest =>
      if Nat.eqb (observedCount e) (requiredCount e)
      then mismatches_from (S i) rest
      else mkMismatch i (requiredCount e) (observedCount e)
             :: mismatches_from (S i) rest
  end.

(** Modelled from the spec (ExpectationLedger.assertExpectations): fails
    when some expectation's [observedCount] differs from its
    [requiredCount], with one report naming every mismatch. *)
Definition assert_ledger (exps : list Expectation) : AssertOutcome :=
  match mismatches_from 0 exps with
  | [] => AssertOk
  | report => ExpectationUnmet report
  end.

(** ** BlockStore *)

(** Transaction records are not validated by the core (spec, 4.3); they
    are kept as the JSON values the transport decoded. *)
Definition Transaction := JsValue.

Record MinedBlock := mkBlock {
  number : Z;
  transactions : list Transaction
}.

(** Number of the last block of an append-only store ([default] when
    the store is empty; a server's store always holds its genesis
    block). *)
Fixpoint last_number (default : Z) (bs : list MinedBlock) : Z :=
  match bs with
  | [] => default
  | b :: rest => last_number (number b) rest
  end.

Definition lastBlockNumber (bs : list MinedBlock) : Z := last_number 0 bs.

(** ** CoreServer *)

Record Server := mkServer {
  responders : list Responder;      (* in the order they were added *)
  expectations : list Expectation;  (* in the order they were added *)
  blocks : list MinedBlock;         (* append-only *)
  pending : list Transaction;       (* in submission order *)
  destroyed : bool
}.

Inductive Failure :=
  | UseAfterDestroy.

(** JSON-RPC responses: [{jsonrpc, id, result}] or
    [{jsonrpc, id, error: {code, message}}]. *)
Inductive Response :=
  | RpcResult (version : string) (rid : Z) (result : JsValue)
  | RpcError (version : string) (rid : Z) (code : Z) (message : string).

(** Modelled from the spec (CoreServer): the standing fallback responder,
    answering every request with a generic error. *)
Definition fallback_responder : Responder :=
  fun req => JError ("Unhandled method: " ++ method req)%string.

Definition server_error_code : Z := -32000.

(** Modelled from the spec (CoreServer.handle, step 3). *)
Definition to_response (req : JsonRpcRequest) (v : JsValue) : Response :=
  match v with
  | JError msg => RpcError "2.0" (id req) server_error_code msg
  | _ => RpcResult "2.0" (id req) v
  end.

(** The responder chain with the fallback responder underneath it. *)
Definition resolve (s : Server) (req : JsonRpcRequest) : JsValue :=
  match resolve_chain (responders s) req with
  | Some v => v
  | None => fallback_responder req
  end.

Definition init_server (genesis : Z) (defaults : list Responder) : Server :=
  mkServer defaults [] [mkBlock genesis []] [] false.

Definition set_responders (s : Server) (rs : list Responder) : Server :=
  mkServer rs (expectations s) (blocks s) (pending s) (destroyed s).

Definition set_expectations (s : Server) (es : list Expectation) : Server :=
  mkServer (responders s) es (blocks s) (pending s) (destroyed s).

(** Mutating operations fail fast after [destroy()] (the choice the spec
    recommends for its open question). *)
Definition when_active (s : Server) (s' : Server) : Failure + Server :=
  if destroyed s then inl UseAfterDestroy else inr s'.

(** [addResponder(responseGenerator)] *)
Definition addResponder (g : Responder) (s : Server) : Failure + Server :=
  when_active s (set_responders s (responders s ++ [g])).

(** [addExpectation(requestMatcher)]: required count 1. *)
Definition addExpectation (m : JsonRpcRequest -> bool) (s : Server)
    : Failure + Server :=
  when_active s (set_expectations s (expectations s ++ [mkExpectation m 1 0])).

(** Modelled from the spec (ExpectationLedger.addExpectations): the
    matcher is the generator's applicability (it does not return
    [undefined]) and the generator also answers, as a responder. *)
Definition addExpectations (count : nat) (g : Responder) (s : Server)
    : Failure + Server :=
  when_active s
    (mkServer (responders s ++ [g])
              (expectations s
                 ++ [mkExpectation (fun r => negb (is_undefined (g r))) count 0])
              (blocks s) (pending s) (destroyed s)).

(** [clearResponders()]: every responder but the fallback one, which is
    not part of the list, is removed. *)
Definition clearResponders (s : Server) : Failure + Server :=
  when_active s (set_responders s []).

(** [assertExpectations()] *)
Definition assertExpectations (s : Server) : AssertOutcome :=
  assert_ledger (expectations s).

(** Modelled from the spec (BlockStore.recordPendingTransaction). *)
Definition recordPendingTransaction (tx : Transaction) (s : Server)
    : Failure + Server :=
  when_active s
    (mkServer (responders s) (expectations s) (blocks s)
              (pending s ++ [tx]) (destroyed s)).

(** Modelled from the spec (BlockStore.mine): a block numbered one past
    the last block, holding the pending queue; the queue is cleared. *)
Definition mine (s : Server) : Failure + Server :=
  when_active s
    (mkServer (responders s) (expectations s)
              (blocks s ++ [mkBlock (lastBlockNumber (blocks s) + 1)%Z (pending s)])
              [] (destroyed s)).

(** Modelled from the spec (CoreServer.destroy): the server becomes
    inert and its expectations are released; idempotent. *)
Definition destroy (s : Server) : Server :=
  mkServer (responders s) [] (blocks s) (pending s) true.

(** Modelled from the spec (CoreServer.handle). *)
Definition handle (req : JsonRpcRequest) (s : Server)
    : Failure + (Response * Server) :=
  if destroyed s then inl UseAfterDestroy
  else
    let s1 := set_expectations s (observe (expectations s) req) in
    inr (to_response req (resolve s1 req), s1).

(** ** Sequences of calls *)

(** A sequence of [addResponder] calls, stopping at the first failure. *)
Fixpoint add_responders (gs : list Responder) (s : Server) : Failure + Server :=
  match gs with
  | [] => inr s
  | g :: rest =>
      match addResponder g s with
      | inl f => inl f
      | inr s' => add_responders rest s'
      end
  end.

(** Requests handled one after another; responses are dropped. *)
Fixpoint handle_all (rs : list JsonRpcRequest) (s : Server) : Failure + Server :=
  match rs with
  | [] => inr s
  | r :: rest =>
      match handle r s with
      | inl f => inl f
      | inr (_, s') => handle_all rest s'
      end
  end.

(** The test-facing calls of [AbstractServer], plus the core entry points
    [handle] and [recordPendingTransaction]. *)
Inductive Call :=
  | CAddExpectation (m : JsonRpcRequest -> bool)
  | CAddExpectations (count : nat) (g : Responder)
  | CAddResponder (g : Responder)
  | CClearResponders
  | CAssertExpectations
  | CMine
  | CDestroy
  | CRecordPendingTransaction (tx : Transaction)
  | CHandle (req : JsonRpcRequest).

Definition exec_call (c : Call) (s : Server) : Failure + Server :=
  match c with
  | CAddExpectation m => addExpectation m s
  | CAddExpectations n g => addExpectations n g s
  | CAddResponder g => addResponder g s
  | CClearResponders => clearResponders s
  | CAssertExpectations => inr s
  | CMine => mine s
  | CDestroy => inr (destroy s)
  | CRecordPendingTransaction tx => recordPendingTransaction tx s
  | CHandle req =>
      match handle req s with
      | inl f => inl f
      | inr (_, s') => inr s'
      end
  end.

(** A failing call throws to its caller and leaves the server as it was. *)
Fixpoint run_calls (cs : list Call) (s : Server) : Server :=
  match cs with
  | [] => s
  | c :: rest =>
      match exec_call c s with
      | inl _ => run_calls rest s
      | inr s' => run_calls rest s'
      end
  end.

(** Number of requests of [rs] that [m] matches. *)
Definition count_matching (m : JsonRpcRequest -> bool) (rs : list JsonRpcRequest) : nat :=
  List.length (filter m rs).

(** Sample requests and responders used by the concrete instances. *)
Definition req_block : JsonRpcRequest := mkRequest "2.0" 1 "eth_blockNumber" [].
Definition req_balance : JsonRpcRequest := mkRequest "2.0" 2 "eth_getBalance" ["0xabc"].
Definition answer_num (n : Z) : Responder := fun _ => JNum n.
Definition decline : Responder := fun _ => JUndefined.
Definition only_method (name : string) (v : JsValue) : Responder :=
  fun r => if String.eqb (method r) name then v else JUndefined.

(** ** Concurrent [handle()] invocations *)

(** Modelled from the spec (section 5): the transports may call
    [handle()] from several connections at once, and the observation of
    a request by the expectation ledger runs under a mutual-exclusion
    lock.  An invocation waits for the lock, enters its critical section
    by reading the ledger, and leaves it by writing back the ledger as
    [observe] updates it; any interleaving of the invocations is
    allowed.  (Resolution only reads the responder chain and does not
    touch the ledger.) *)
Inductive Phase :=
  | Waiting
  | InCritical (snapshot : list Expectation)
  | Completed.

Record Concurrent := mkConcurrent {
  ledger : list Expectation;
  invocations : list (JsonRpcRequest * Phase)
}.

Definition holds_lock (p : Phase) : bool :=
  match p with InCritical _ => true | _ => false end.

Definition is_completed (p : Phase) : bool :=
  match p with Completed => true | _ => false end.

Definition lock_free (ws : list (JsonRpcRequest * Phase)) : bool :=
  forallb (fun w => negb (holds_lock (snd w))) ws.

Fixpoint set_nth {A} (i : nat) (x : A) (l : list A) : list A :=
  match i, l with
  | _, [] => []
  | O, _ :: rest => x :: rest
  | S i', y :: rest => y :: set_nth i' x rest
  end.

Inductive cstep : Concurrent -> Concurrent -> Prop :=
  | step_enter c i req :
      nth_error (invocations c) i = Some (req, Waiting) ->
      lock_free (invocations c) = true ->
      cstep c (mkConcurrent (ledger c)
                 (set_nth i (req, InCritical (ledger c)) (invocations c)))
  | step_leave c i req snap :
      nth_error (invocations c) i = Some (req, InCritical snap) ->
      cstep c (mkConcurrent (observe snap req)
                 (set_nth i (req, Completed) (invocations c))).

Inductive csteps : Concurrent -> Concurrent -> Prop :=
  | csteps_refl c : csteps c c
  | csteps_step c1 c2 c3 : cstep c1 c2 -> csteps c2 c3 -> csteps c1 c3.

(** Every request of [rs] handled concurrently against the ledger [exps]. *)
Definition start (exps : list Expectation) (rs : list JsonRpcRequest) : Concurrent :=
  mkConcurrent exps (map (fun r => (r, Waiting)) rs).

Definition all_completed (ws : list (JsonRpcRequest * Phase)) : bool :=
  forallb (fun w => is_completed (snd w)) ws.

(** The ledger with each expectation's count raised by the number of
    requests of [rs] its matcher matches. *)
Definition bump_ledger (exps : list Expectation) (rs : list JsonRpcRequest)
    : list Expectation :=
  map (fun e => mkExpectation (matcher e) (requiredCount e)
                  (observedCount e + count_matching (matcher e) rs)) exps.

Definition completed_reqs (ws : list (JsonRpcRequest * Phase)) : list JsonRpcRequest :=
  map fst (filter (fun w => is_completed (snd w)) ws).

Definition lock_holders (ws : list (JsonRpcRequest * Phase)) : nat :=
  List.length (filter (fun w => holds_lock (snd w)) ws).

(** Invariant of every interleaving: the invocations are those of
    [rs], the ledger counts exactly the completed invocations, an
    invocation inside its critical section has read the current ledger,
    and at most one invocation holds the lock. *)
Definition cinv (E : list Expectation) (rs : list JsonRpcRequest) (c : Concurrent) : Prop :=
  map fst (invocations c) = rs
  /\ ledger c = bump_ledger E (completed_reqs (invocations c))
  /\ (forall i r snap, nth_error (invocations c) i = Some (r, InCritical snap) ->
        snap = ledger c)
  /\ lock_holders (invocations c) <= 1.

(** ** The declared classes (index.d.ts) *)

Inductive ClassName :=
  | AbstractServer
  | HttpServer
  | WsServer
  | IpcServer.

Definition ClassName_eqb (a b : ClassName) : bool :=
  match a, b with
  | AbstractServer, AbstractServer | HttpServer, HttpServer
  | WsServer, WsServer | IpcServer, IpcServer => true
  | _, _ => false
  end.

(** The TypeScript types occurring in the declarations. *)
Inductive TsType :=
  | TVoid
  | TNumber
  | TString
  | TBoolean
  | TAny
  | TJsonRpcRequest
  | TFunction (args : list (string * TsType)) (ret : TsType)
  | TClass (c : ClassName).

Inductive Visibility := Public | Protected.

Record MethodDecl := mkMethod {
  method_name : string;
  method_params : list (string * TsType);
  method_ret : TsType
}.

Record ClassDecl := mkClass {
  class_parent : option ClassName;
  ctor_visibility : Visibility;
  ctor_params : list (string * TsType);
  class_methods : list MethodDecl
}.

Definition request_to (ret : TsType) : TsType :=
  TFunction [("request", TJsonRpcRequest)] ret.

(** The class declarations of index.d.ts, lines 11-76. *)
Definition class_decl (c : ClassName) : ClassDecl :=
  match c with
  | AbstractServer =>
      mkClass None Protected []
        [ mkMethod "addExpectation" [("requestMatcher", request_to TBoolean)] TVoid;
          mkMethod "addExpectations"
            [("count", TNumber); ("responseGenerator", request_to TAny)] TVoid;
          mkMethod "addResponder" [("responseGenerator", request_to TAny)] TVoid;
          mkMethod "clearResponders" [] TVoid;
          mkMethod "assertExpectations" [] TVoid;
          mkMethod "mine" [] TVoid;
          mkMethod "destroy" [] TVoid ]
  | HttpServer => mkClass (Some AbstractServer) Public [("address", TString)] []
  | WsServer => mkClass (Some AbstractServer) Public [("address", TString)] []
  | IpcServer => mkClass (Some AbstractServer) Public [("address", TString)] []
  end.

(** The export list of index.d.ts, line 86. *)
Inductive Export :=
  | ExportClass (c : ClassName)
  | ExportCreateStubServer.

Definition exports : list Export :=
  [ExportCreateStubServer; ExportClass HttpServer; ExportClass WsServer;
   ExportClass IpcServer].

Definition is_exported_class (c : ClassName) : bool :=
  existsb (fun x => match x with
                    | ExportClass c' => ClassName_eqb c c'
                    | ExportCreateStubServer => false
                    end) exports.

(** Member lookup along the [extends] chain: a class's own members
    first, then its parent's.  [fuel] bounds the depth of the chain. *)
Fixpoint lookup_method (fuel : nat) (c : ClassName) (n : string) : option MethodDecl :=
  match fuel with
  | O => None
  | S fuel' =>
      match find (fun m => String.eqb (method_name m) n) (class_methods (class_decl c)) with
      | Some m => Some m
      | None =>
          match class_parent (class_decl c) with
          | Some p => lookup_method fuel' p n
          | None => None
          end
      end
  end.

(** There are four classes, so a chain of four links is enough. *)
Definition find_method (c : ClassName) (n : string) : option MethodDecl :=
  lookup_method 4 c n.

(** A server object as the client sees it: its class and the arguments
    it was constructed with. *)
Record ServerInstance := mkInstance {
  instance_class : ClassName;
  instance_args : list string
}.

(** Modelled from the spec (construction helper) and from the doc
    comment of [createStubServer] (index.d.ts, lines 78-84): the
    transport type must be one of HTTP, WS or IPC; any other value is
    rejected. *)
Definition createStubServer (transportType transportAddress : string)
    : option ServerInstance :=
  if String.eqb transportType "HTTP" then Some (mkInstance HttpServer [transportAddress])
  else if String.eqb transportType "WS" then Some (mkInstance WsServer [transportAddress])
  else if String.eqb transportType "IPC" then Some (mkInstance IpcServer [transportAddress])
  else None.

(** The ways client code can ask for a server object: [new C(args)] or a
    call of the exported helper. *)
Inductive ClientExpr :=
  | NewExpr (c : ClassName) (args : list string)
  | CallCreateStubServer (transportType transportAddress : string).

Definition is_public (v : Visibility) : bool :=
  match v with Public => true | Protected => false end.

(** TypeScript's rule for [new C(args)] from client code: [C] must be
    imported (exported by the module), its constructor public, and the
    arguments must match the constructor's string parameters. *)
Definition client_may_construct (c : ClassName) (args : list string) : bool :=
  is_exported_class c
  && is_public (ctor_visibility (class_decl c))
  && Nat.eqb (List.length args) (List.length (ctor_params (class_decl c)))
  && forallb (fun p => match snd p with TString => true | _ => false end)
             (ctor_params (class_decl c)).

Definition eval_client (e : ClientExpr) : option ServerInstance :=
  match e with
  | NewExpr c args =>
      if client_may_construct c args then Some (mkInstance c args) else None
  | CallCreateStubServer t a => createStubServer t a
  end.

(** ** Views used by the properties of whole call sequences *)



(** A block store numbered consecutively from [g]: the block at
    position [k] has number [g + k]. *)
Definition numbered_from (g : Z) (bs : list MinedBlock) : Prop :=
  bs <> [] /\ forall k b, nth_error bs k = Some b -> number b = (g + Z.of_nat k)%Z.

(** ** Lemmas on the responder chain *)

Lemma first_answer_app (l1 l2 : list Responder) (req : JsonRpcRequest) :
  first_answer (l1 ++ l2) req =
  match first_answer l1 req with
  | Some v => Some v
  | None => first_answer l2 req
  end.
Proof.
  induction l1 as [| g l1 IH]; simpl; [reflexivity |].
  destruct (g req); try reflexivity. exact IH.
Qed.

Lemma first_answer_all_undefined (l : list Responder) (req : JsonRpcRequest) :
  Forall (fun h => h req = JUndefined) l -> first_answer l req = None.
Proof.
  induction 1 as [| h l Hh _ IH]; simpl; [reflexivity |].
  rewrite Hh. exact IH.
Qed.

Lemma resolve_chain_snoc (chain : list Responder) (g : Responder)
    (req : JsonRpcRequest) :
  resolve_chain (chain ++ [g]) req =
  if is_undefined (g req) then resolve_chain chain req else Some (g req).
Proof.
  unfold resolve_chain. rewrite rev_app_distr. simpl.
  destruct (g req); reflexivity.
Qed.

Lemma add_responders_active (gs : list Responder) (s : Server) :
  destroyed s = false ->
  add_responders gs s = inr (set_responders s (responders s ++ gs)).
Proof.
  revert s. induction gs as [| g gs IH]; intros s Hs; simpl.
  - rewrite app_nil_r. destruct s; reflexivity.
  - unfold addResponder, when_active. rewrite Hs.
    rewrite IH by exact Hs. simpl. rewrite <- app_assoc. reflexivity.
Qed.

(** ** Lemmas on the expectation ledger *)

Lemma mismatches_from_In (i : nat) (es : list Expectation) (mm : Mismatch) :
  In mm (mismatches_from i es) <->
  exists j e, nth_error es j = Some e
              /\ observedCount e <> requiredCount e
              /\ mm = mkMismatch (i + j) (requiredCount e) (observedCount e).
Proof.
  revert i. induction es as [| e es IH]; intro i; simpl.
  - split; [contradiction |]. intros (j & e & Hj & _). destruct j; discriminate.
  - case_eq (Nat.eqb (observedCount e) (requiredCount e)); intro Heq.
    + apply Nat.eqb_eq in Heq. rewrite IH. split.
      * intros (j & e' & Hj & Hne & ->). exists (S j), e'.
        repeat split; [exact Hj | exact Hne | f_equal; lia].
      * intros ([| j] & e' & Hj & Hne & ->).
        -- injection Hj as <-. contradiction.
        -- exists j, e'. repeat split; [exact Hj | exact Hne | f_equal; lia].
    + apply Nat.eqb_neq in Heq. simpl. rewrite IH. split.
      * intros [<- | (j & e' & Hj & Hne & ->)].
        -- exists 0, e. repeat split; [exact Heq | f_equal; lia].
        -- exists (S j), e'. repeat split; [exact Hj | exact Hne | f_equal; lia].
      * intros ([| j] & e' & Hj & Hne & ->).
        -- injection Hj as <-. left. f_equal; lia.
        -- right. exists j, e'. repeat split; [exact Hj | exact Hne | f_equal; lia].
Qed.

Lemma mismatches_from_nil (i : nat) (es : list Expectation) :
  mismatches_from i es = [] <->
  Forall (fun e => observedCount e = requiredCount e) es.
Proof.
  revert i. induction es as [| e es IH]; intro i; simpl.
  - split; constructor.
  - case_eq (Nat.eqb (observedCount e) (requiredCount e)); intro Heq.
    + apply Nat.eqb_eq in Heq. rewrite IH. split.
      * intro H. constructor; assumption.
      * intro H. inversion H; assumption.
    + apply Nat.eqb_neq in Heq. split; [discriminate |].
      intro H. inversion H. contradiction.
Qed.

Lemma handle_active (req : JsonRpcRequest) (s : Server) :
  destroyed s = false ->
  handle req s = inr (to_response req (resolve s req),
                      set_expectations s (observe (expectations s) req)).
Proof.
  intro Hs. unfold handle. rewrite Hs. reflexivity.
Qed.

Lemma handle_all_active (rs : list JsonRpcRequest) (s : Server) :
  destroyed s = false ->
  handle_all rs s = inr (set_expectations s (fold_left observe rs (expectations s))).
Proof.
  revert s. induction rs as [| r rs IH]; intros s Hs; simpl.
  - destruct s; reflexivity.
  - rewrite (handle_active r s Hs). rewrite IH by exact Hs. reflexivity.
Qed.

Lemma fold_observe_single (m : JsonRpcRequest -> bool) (r o : nat)
    (rs : list JsonRpcRequest) :
  fold_left observe rs [mkExpectation m r o]
  = [mkExpectation m r (o + count_matching m rs)].
Proof.
  revert o. induction rs as [| q rs IH]; intro o; simpl.
  - rewrite Nat.add_0_r. reflexivity.
  - unfold observe_one. simpl. unfold count_matching. simpl.
    destruct (m q); simpl.
    + rewrite IH. unfold count_matching. f_equal. f_equal. lia.
    + rewrite IH. reflexivity.
Qed.

(** ** Lemmas on the block store and the lifecycle *)

Lemma last_number_snoc (d : Z) (bs : list MinedBlock) (b : MinedBlock) :
  last_number d (bs ++ [b]) = number b.
Proof.
  revert d. induction bs as [| b' bs IH]; intro d; simpl; [reflexivity | apply IH].
Qed.

Lemma exec_call_destroyed (c : Call) (s : Server) :
  destroyed s = true ->
  match exec_call c s with
  | inl _ => True
  | inr s' => destroyed s' = true
  end.
Proof.
  intro Hs.
  destruct c; simpl;
    unfold addExpectation, addExpectations, addResponder, clearResponders,
      recordPendingTransaction, mine, when_active, handle;
    rewrite ?Hs; trivial.
Qed.

Lemma run_calls_destroyed (cs : list Call) (s : Server) :
  destroyed s = true -> destroyed (run_calls cs s) = true.
Proof.
  revert s. induction cs as [| c cs IH]; intros s Hs; simpl; [exact Hs |].
  pose proof (exec_call_destroyed c s Hs) as Hc.
  destruct (exec_call c s); apply IH; assumption.
Qed.

Lemma nth_error_map_some {A B} (f : A -> B) (l : list A) (i : nat) (x : A) :
  nth_error l i = Some x -> nth_error (map f l) i = Some (f x).
Proof.
  intro H. rewrite nth_error_map, H. reflexivity.
Qed.

(** ** Lemmas on concurrent invocations *)

Lemma nth_error_set_nth {A} (i j : nat) (x : A) (l : list A) :
  nth_error (set_nth i x l) j =
  if Nat.eqb i j then option_map (fun _ => x) (nth_error l j) else nth_error l j.
Proof.
  revert i j. induction l as [| y l IH]; intros [| i] [| j]; simpl;
    try reflexivity; try (destruct (Nat.eqb _ _); reflexivity).
  rewrite IH. reflexivity.
Qed.

Lemma set_nth_fst (ws : list (JsonRpcRequest * Phase)) (i : nat)
    (r : JsonRpcRequest) (p p' : Phase) :
  nth_error ws i = Some (r, p) -> map fst (set_nth i (r, p') ws) = map fst ws.
Proof.
  revert i. induction ws as [| w ws IH]; intros [| i] H; simpl in *;
    try discriminate.
  - injection H as ->. reflexivity.
  - rewrite (IH i H). reflexivity.
Qed.

Lemma filter_length_set_nth {A} (f : A -> bool) (l : list A) (i : nat) (x y : A) :
  nth_error l i = Some y ->
  List.length (filter f (set_nth i x l)) + (if f y then 1 else 0)
  = List.length (filter f l) + (if f x then 1 else 0).
Proof.
  revert i. induction l as [| z l IH]; intros [| i] H; simpl in *;
    try discriminate.
  - injection H as ->. destruct (f x), (f y); simpl; lia.
  - specialize (IH i H). destruct (f z); simpl; lia.
Qed.

Lemma count_completed (m : JsonRpcRequest -> bool) (ws : list (JsonRpcRequest * Phase)) :
  count_matching m (completed_reqs ws)
  = List.length (filter (fun w => is_completed (snd w) && m (fst w)) ws).
Proof.
  unfold count_matching, completed_reqs.
  induction ws as [| [r p] ws IH]; simpl; [reflexivity |].
  destruct (is_completed p); simpl; [| exact IH].
  destruct (m r); simpl; rewrite IH; reflexivity.
Qed.

Lemma holder_counted (ws : list (JsonRpcRequest * Phase)) (j : nat)
    (r : JsonRpcRequest) (snap : list Expectation) :
  nth_error ws j = Some (r, InCritical snap) -> 1 <= lock_holders ws.
Proof.
  intro H. unfold lock_holders.
  assert (Hin : In (r, InCritical snap) (filter (fun w => holds_lock (snd w)) ws)).
  { apply filter_In. split; [exact (nth_error_In _ _ H) | reflexivity]. }
  destruct (filter (fun w => holds_lock (snd w)) ws); [contradiction | simpl; lia].
Qed.

Lemma lock_free_no_holder (ws : list (JsonRpcRequest * Phase)) :
  lock_free ws = true -> lock_holders ws = 0.
Proof.
  unfold lock_free, lock_holders.
  induction ws as [| [r p] ws IH]; simpl; [reflexivity |].
  intro H. apply andb_prop in H as [H1 H2].
  destruct p; simpl in *; try discriminate; apply IH; exact H2.
Qed.

Lemma observe_bump_ledger (E : list Expectation) (L L' : list JsonRpcRequest)
    (r : JsonRpcRequest) :
  (forall m, count_matching m L' = count_matching m L + (if m r then 1 else 0)) ->
  observe (bump_ledger E L) r = bump_ledger E L'.
Proof.
  intro H. unfold observe, bump_ledger. rewrite map_map. apply map_ext.
  intro e. unfold observe_one. simpl. rewrite H.
  destruct (matcher e r); f_equal; lia.
Qed.

Lemma filter_start (f : Phase -> bool) (rs : list JsonRpcRequest) :
  f Waiting = false ->
  filter (fun w => f (snd w)) (map (fun r => (r, Waiting)) rs) = [].
Proof.
  intro Hw. induction rs as [| r rs IH]; simpl; [reflexivity |].
  rewrite Hw. exact IH.
Qed.

Lemma completed_reqs_set_nth (ws : list (JsonRpcRequest * Phase)) (i : nat)
    (r : JsonRpcRequest) (p p' : Phase) :
  nth_error ws i = Some (r, p) -> is_completed p = is_completed p' ->
  completed_reqs (set_nth i (r, p') ws) = completed_reqs ws.
Proof.
  unfold completed_reqs.
  revert i. induction ws as [| w ws IH]; intros [| i] H Hc; simpl in *;
    try discriminate.
  - injection H as ->. simpl. rewrite Hc. destruct (is_completed p'); reflexivity.
  - destruct (is_completed (snd w)); simpl; rewrite (IH i H Hc); reflexivity.
Qed.

Section Concurrency.
Variable E : list Expectation.
Variable rs : list JsonRpcRequest.

Lemma cinv_start : cinv E rs (start E rs).
Proof.
  unfold cinv, start. simpl. repeat split.
  - rewrite map_map. apply map_id.
  - unfold completed_reqs. rewrite (filter_start is_completed) by reflexivity.
    unfold bump_ledger. simpl. rewrite <- (map_id E) at 1. apply map_ext.
    intros []. simpl. f_equal. unfold count_matching. simpl. lia.
  - intros i r snap H. rewrite nth_error_map in H.
    destruct (nth_error rs i); discriminate.
  - unfold lock_holders. rewrite (filter_start holds_lock) by reflexivity.
    simpl. lia.
Qed.

Lemma cinv_step (c c' : Concurrent) : cinv E rs c -> cstep c c' -> cinv E rs c'.
Proof.
  intros (Hfst & Hled & Hsnap & Hlock) Hstep.
  destruct Hstep as [c i req Hi Hfree | c i req snap Hi]; unfold cinv; simpl.
  - split; [rewrite (set_nth_fst _ _ _ _ _ Hi); exact Hfst |].
    split; [rewrite (completed_reqs_set_nth _ i req Waiting (InCritical (ledger c)) Hi eq_refl); exact Hled |].
    split.
    + intros j r snap Hj. rewrite nth_error_set_nth in Hj.
      destruct (Nat.eqb i j) eqn:Hij.
      * apply Nat.eqb_eq in Hij. subst j.
        rewrite Hi in Hj. simpl in Hj. injection Hj as _ <-. reflexivity.
      * exact (Hsnap j r snap Hj).
    + pose proof (filter_length_set_nth (fun w => holds_lock (snd w)) _ i
                    (req, InCritical (ledger c)) _ Hi) as Hlen.
      pose proof (lock_free_no_holder _ Hfree) as H0.
      unfold lock_holders in *. simpl in Hlen. lia.
  - assert (Hsn : snap = ledger c) by exact (Hsnap i req snap Hi).
    pose proof (filter_length_set_nth (fun w => holds_lock (snd w)) _ i
                  (req, Completed) _ Hi) as Hlen.
    assert (H0 : lock_holders (set_nth i (req, Completed) (invocations c)) = 0)
      by (unfold lock_holders in *; simpl in Hlen; lia).
    split; [rewrite (set_nth_fst _ _ _ _ _ Hi); exact Hfst |].
    split.
    + rewrite Hsn, Hled. apply observe_bump_ledger. intro m.
      rewrite !count_completed.
      pose proof (filter_length_set_nth
                    (fun w => is_completed (snd w) && m (fst w)) _ i
                    (req, Completed) _ Hi) as Hc.
      simpl in Hc. lia.
    + split; [| lia].
      intros j r snap' Hj. pose proof (holder_counted _ _ _ _ Hj). lia.
Qed.

Lemma cinv_steps (c c' : Concurrent) : csteps c c' -> cinv E rs c -> cinv E rs c'.
Proof.
  induction 1 as [c | c1 c2 c3 H12 _ IH]; intro H; [exact H |].
  apply IH. exact (cinv_step c1 c2 H H12).
Qed.
End Concurrency.

(** * Properties of the stub server *)

(** C1: after any sequence [pre ++ g :: post] of [addResponder] calls in
    which [g] is the most recently added responder that does not return
    the "no match" sentinel for [req] (every responder of [post] returns
    it), resolving [req] returns [g]'s result, whatever the responders
    added before [g] (in [pre] or earlier) would return. *)
Theorem resolve_most_recent_applicable (s : Server) (pre post : list Responder)
    (g : Responder) (req : JsonRpcRequest)
    (Hactive : destroyed s = false)
    (Hg : g req <> JUndefined)
    (Hpost : Forall (fun h => h req = JUndefined) post) :
  exists s', add_responders (pre ++ g :: post) s = inr s'
             /\ resolve_chain (responders s') req = Some (g req)
             /\ resolve s' req = g req.
Proof.
  rewrite (add_responders_active _ _ Hactive).
  eexists; split; [reflexivity |].
  assert (Hc : resolve_chain (responders s ++ pre ++ g :: post) req = Some (g req)).
  { unfold resolve_chain.
    rewrite !rev_app_distr. simpl.
    rewrite <- !app_assoc.
    rewrite first_answer_app.
    rewrite (first_answer_all_undefined (rev post)) by (apply Forall_rev; exact Hpost).
    simpl. destruct (g req); try reflexivity. contradiction. }
  simpl. split; [exact Hc |].
  unfold resolve. simpl. rewrite Hc. reflexivity.
Qed.

Lemma resolve_most_recent_applicable_witness :
  destroyed (init_server 0 [answer_num 7]) = false
  /\ only_method "eth_blockNumber" JNull req_block <> JUndefined
  /\ Forall (fun h => h req_block = JUndefined) [decline; only_method "eth_getBalance" (JNum 3)]
  /\ exists s', add_responders ([answer_num 1] ++ only_method "eth_blockNumber" JNull
                                 :: [decline; only_method "eth_getBalance" (JNum 3)])
                               (init_server 0 [answer_num 7]) = inr s'
                /\ resolve_chain (responders s') req_block = Some JNull
                /\ resolve s' req_block = JNull.
Proof.
  split; [reflexivity |]. split; [discriminate |].
  split; [repeat constructor |].
  apply (resolve_most_recent_applicable (init_server 0 [answer_num 7]) [answer_num 1]
           [decline; only_method "eth_getBalance" (JNum 3)]
           (only_method "eth_blockNumber" JNull) req_block);
    [reflexivity | discriminate | repeat constructor].
Defined.

(** C2 (counterexample): a responder cannot answer a request with
    [undefined]: [undefined] is the "no match" sentinel, so the value
    used for the request is not the newest responder's [undefined]
    answer (here the fallback error is used instead). *)
Lemma undefined_answer_is_no_match :
  ~ (forall (g : Responder) (s s' : Server) (req : JsonRpcRequest),
        addResponder g s = inr s' -> resolve s' req = g req).
Proof.
  intro H.
  specialize (H decline (init_server 0 []) (set_responders (init_server 0 []) [decline])
                req_block eq_refl).
  discriminate H.
Qed.

(** C2 (amended): [undefined] is the "no match" sentinel.  After
    [addResponder(g)], a request for which [g] returns [undefined] is
    resolved exactly as before the call; for every other value [g]
    returns, [null] included, that value is the result. *)
Theorem undefined_is_the_no_match_sentinel (g : Responder) (s s' : Server)
    (req : JsonRpcRequest)
    (Hadd : addResponder g s = inr s') :
  resolve s' req = (if is_undefined (g req) then resolve s req else g req)
  /\ (g req = JNull -> resolve s' req = JNull).
Proof.
  unfold addResponder, when_active in Hadd.
  destruct (destroyed s); [discriminate |].
  injection Hadd as <-.
  assert (E : resolve (set_responders s (responders s ++ [g])) req
              = if is_undefined (g req) then resolve s req else g req).
  { unfold resolve. simpl. rewrite resolve_chain_snoc.
    destruct (g req); reflexivity. }
  split; [exact E |].
  intro Hn. rewrite E, Hn. reflexivity.
Qed.

Lemma undefined_is_the_no_match_sentinel_witness :
  addResponder (only_method "eth_blockNumber" JNull) (init_server 0 [answer_num 5])
    = inr (set_responders (init_server 0 [answer_num 5])
             [answer_num 5; only_method "eth_blockNumber" JNull])
  /\ resolve (set_responders (init_server 0 [answer_num 5])
                [answer_num 5; only_method "eth_blockNumber" JNull]) req_balance
     = JNum 5.
Proof.
  split; [reflexivity |].
  exact (proj1 (undefined_is_the_no_match_sentinel
                  (only_method "eth_blockNumber" JNull) (init_server 0 [answer_num 5])
                  _ req_balance eq_refl)).
Defined.

(** C3: [assertExpectations()] succeeds exactly when every expectation's
    observed count equals its required count, and otherwise fails with
    one report listing every mismatched expectation (its position, the
    expected and the actual count).  On a server with no expectation
    yet, after [addExpectation(m)] and any requests, it succeeds when
    exactly one request matched [m] and otherwise reports the single
    mismatch (expected 1, actual the number of matching requests): 0
    or 2 matches give the mismatches (0,1) and (2,1). *)
Theorem assert_expectations_exact (s0 : Server) (m : JsonRpcRequest -> bool)
    (rs : list JsonRpcRequest)
    (Hactive : destroyed s0 = false)
    (Hfresh : expectations s0 = []) :
  (forall s, assertExpectations s = AssertOk <->
             Forall (fun e => observedCount e = requiredCount e) (expectations s))
  /\ (forall s report, assertExpectations s = ExpectationUnmet report ->
        report <> []
        /\ forall mm, In mm report <->
             exists i e, nth_error (expectations s) i = Some e
                         /\ observedCount e <> requiredCount e
                         /\ mm = mkMismatch i (requiredCount e) (observedCount e))
  /\ exists s1 s2,
       addExpectation m s0 = inr s1
       /\ handle_all rs s1 = inr s2
       /\ assertExpectations s2 =
            if Nat.eqb (count_matching m rs) 1 then AssertOk
            else ExpectationUnmet [mkMismatch 0 1 (count_matching m rs)].
Proof.
  split; [| split].
  - intro s. unfold assertExpectations, assert_ledger.
    rewrite <- (mismatches_from_nil 0).
    destruct (mismatches_from 0 (expectations s)); split; congruence.
  - intros s report H. unfold assertExpectations, assert_ledger in H.
    destruct (mismatches_from 0 (expectations s)) as [| x xs] eqn:E;
      [discriminate |].
    injection H as <-. split; [discriminate |].
    intro mm. rewrite <- E, mismatches_from_In. reflexivity.
  - unfold addExpectation, when_active. rewrite Hactive.
    eexists; eexists; split; [reflexivity |].
    rewrite handle_all_active by exact Hactive.
    split; [reflexivity |].
    unfold assertExpectations, assert_ledger. simpl. rewrite Hfresh. simpl.
    rewrite fold_observe_single. simpl.
    destruct (count_matching m rs) as [| [| k]]; reflexivity.
Qed.

Lemma assert_expectations_exact_witness :
  destroyed (init_server 0 []) = false
  /\ expectations (init_server 0 []) = []
  /\ exists s1 s2,
       addExpectation (fun r => String.eqb (method r) "eth_blockNumber")
         (init_server 0 []) = inr s1
       /\ handle_all [req_block; req_balance; req_block] s1 = inr s2
       /\ assertExpectations s2 = ExpectationUnmet [mkMismatch 0 1 2].
Proof.
  split; [reflexivity |]. split; [reflexivity |].
  exact (proj2 (proj2 (assert_expectations_exact (init_server 0 [])
           (fun r => String.eqb (method r) "eth_blockNumber")
           [req_block; req_balance; req_block] eq_refl eq_refl))).
Defined.

(** C4 (counterexample): [mine()] does not create a block in every
    server state: once the server has been destroyed it fails with
    [UseAfterDestroy] and the store is unchanged. *)
Lemma mine_fails_after_destroy :
  ~ (forall s, exists s', mine s = inr s'
       /\ blocks s' = blocks s ++ [mkBlock (lastBlockNumber (blocks s) + 1)%Z (pending s)]
       /\ pending s' = []).
Proof.
  intro H. destruct (H (destroy (init_server 0 []))) as (s' & Hm & _).
  discriminate Hm.
Qed.

(** C4 (amended): in every server state that has not been destroyed,
    [mine()] appends one block numbered one past the last block, whose
    transactions are the pending queue in submission order, clears the
    queue and changes nothing else.  From an empty queue, submitting
    [t1] then [t2] and mining gives the block [n+1] holding [t1; t2];
    mining again gives the empty block [n+2]. *)
Theorem mine_appends_pending_block (s : Server) (Hactive : destroyed s = false) :
  mine s = inr (mkServer (responders s) (expectations s)
                  (blocks s ++ [mkBlock (lastBlockNumber (blocks s) + 1)%Z (pending s)])
                  [] false)
  /\ lastBlockNumber (blocks s ++ [mkBlock (lastBlockNumber (blocks s) + 1)%Z (pending s)])
     = (lastBlockNumber (blocks s) + 1)%Z
  /\ (pending s = [] -> forall t1 t2 : Transaction,
        exists s1 s2 s3 s4,
          recordPendingTransaction t1 s = inr s1
          /\ recordPendingTransaction t2 s1 = inr s2
          /\ mine s2 = inr s3
          /\ mine s3 = inr s4
          /\ blocks s4 = blocks s ++ [mkBlock (lastBlockNumber (blocks s) + 1)%Z [t1; t2];
                                      mkBlock (lastBlockNumber (blocks s) + 2)%Z []]
          /\ pending s4 = []).
Proof.
  split; [| split].
  - unfold mine, when_active. rewrite Hactive. reflexivity.
  - unfold lastBlockNumber. rewrite last_number_snoc. reflexivity.
  - intros Hp t1 t2.
    unfold recordPendingTransaction, mine, when_active. rewrite Hactive. simpl.
    do 4 eexists. repeat (split; [reflexivity |]). split; [| reflexivity].
    rewrite Hp. simpl. rewrite <- app_assoc. simpl. unfold lastBlockNumber.
    rewrite last_number_snoc. simpl. rewrite <- Z.add_assoc. reflexivity.
Qed.

Lemma mine_appends_pending_block_witness :
  destroyed (init_server 10 []) = false
  /\ exists s1 s2 s3 s4,
       recordPendingTransaction (JStr "0x01") (init_server 10 []) = inr s1
       /\ recordPendingTransaction (JStr "0x02") s1 = inr s2
       /\ mine s2 = inr s3
       /\ mine s3 = inr s4
       /\ blocks s4 = [mkBlock 10 []; mkBlock 11 [JStr "0x01"; JStr "0x02"]; mkBlock 12 []]
       /\ pending s4 = [].
Proof.
  split; [reflexivity |].
  exact (proj2 (proj2 (mine_appends_pending_block (init_server 10 []) eq_refl))
           eq_refl (JStr "0x01") (JStr "0x02")).
Defined.

(** C5: on a live server, [handle(request)] first has the ledger observe
    the request: every expectation whose matcher matches has its observed
    count incremented by one, whichever responder answers.  It then
    resolves the request through the responder chain and answers with a
    JSON-RPC error response carrying [request.id] when the result is an
    [Error], and with a success response carrying [request.id]
    otherwise.  Nothing but the expectation counts changes. *)
Theorem handle_observes_then_responds (s : Server) (req : JsonRpcRequest)
    (Hactive : destroyed s = false) :
  exists resp s',
    handle req s = inr (resp, s')
    /\ expectations s' = observe (expectations s) req
    /\ (forall i e, nth_error (expectations s) i = Some e ->
          nth_error (expectations s') i =
            Some (mkExpectation (matcher e) (requiredCount e)
                    (observedCount e + (if matcher e req then 1 else 0))))
    /\ responders s' = responders s /\ blocks s' = blocks s
    /\ pending s' = pending s /\ destroyed s' = false
    /\ (forall msg, resolve s req = JError msg ->
          resp = RpcError "2.0" (id req) server_error_code msg)
    /\ (is_error (resolve s req) = false ->
          resp = RpcResult "2.0" (id req) (resolve s req)).
Proof.
  rewrite (handle_active req s Hactive).
  do 2 eexists. split; [reflexivity |].
  split; [reflexivity |].
  split.
  { intros i e Hi. simpl. unfold observe. rewrite (nth_error_map_some (observe_one req) _ _ _ Hi).
    unfold observe_one. destruct (matcher e req).
    - rewrite Nat.add_1_r. reflexivity.
    - rewrite Nat.add_0_r. destruct e; reflexivity. }
  simpl. repeat (split; [first [reflexivity | exact Hactive] |]).
  split.
  - intros msg Hm. rewrite Hm. reflexivity.
  - unfold to_response. destruct (resolve s req); try reflexivity. discriminate.
Qed.

Lemma handle_observes_then_responds_witness :
  destroyed (init_server 0 [only_method "eth_blockNumber" (JNum 16)]) = false
  /\ exists resp s',
       handle req_block (init_server 0 [only_method "eth_blockNumber" (JNum 16)])
         = inr (resp, s')
       /\ resp = RpcResult "2.0" 1 (JNum 16).
Proof.
  split; [reflexivity |].
  destruct (handle_observes_then_responds
              (init_server 0 [only_method "eth_blockNumber" (JNum 16)]) req_block eq_refl)
    as (resp & s' & H & _ & _ & _ & _ & _ & _ & _ & Hok).
  exists resp, s'. split; [exact H | apply Hok; reflexivity].
Defined.

(** C6: once [destroy()] has been called, every later [handle(request)]
    fails with [UseAfterDestroy], whatever calls were made in between;
    calling [destroy()] again changes nothing. *)
Theorem handle_fails_after_destroy (s : Server) :
  destroy (destroy s) = destroy s
  /\ forall (calls : list Call) (req : JsonRpcRequest),
       handle req (run_calls calls (destroy s)) = inl UseAfterDestroy.
Proof.
  split; [reflexivity |].
  intros calls req. unfold handle.
  rewrite (run_calls_destroyed calls (destroy s) eq_refl). reflexivity.
Qed.

(** C7: after [clearResponders()] succeeds, every request, in any
    sequence of requests, is answered by the fallback error responder
    with its JSON-RPC error response. *)
Theorem clear_responders_leaves_fallback (s s' : Server)
    (Hclear : clearResponders s = inr s') :
  forall rs : list JsonRpcRequest,
    exists s'', handle_all rs s' = inr s''
      /\ forall req, resolve s'' req = fallback_responder req
           /\ handle req s'' =
                inr (RpcError "2.0" (id req) server_error_code
                        ("Unhandled method: " ++ method req)%string,
                     set_expectations s'' (observe (expectations s'') req)).
Proof.
  unfold clearResponders, when_active in Hclear.
  destruct (destroyed s) eqn:Hs; [discriminate |].
  injection Hclear as <-. intro rs.
  rewrite handle_all_active by exact Hs.
  eexists. split; [reflexivity |].
  intro req. split; [reflexivity |].
  unfold handle. simpl. rewrite Hs. reflexivity.
Qed.

Lemma clear_responders_leaves_fallback_witness :
  clearResponders (init_server 0 [answer_num 1]) = inr (init_server 0 [])
  /\ exists s'', handle_all [req_block] (init_server 0 []) = inr s''
       /\ resolve s'' req_balance = JError "Unhandled method: eth_getBalance".
Proof.
  split; [reflexivity |].
  destruct (clear_responders_leaves_fallback (init_server 0 [answer_num 1])
              (init_server 0 []) eq_refl [req_block]) as (s'' & H & Hf).
  exists s''. split; [exact H | exact (proj1 (Hf req_balance))].
Defined.

(** C8: whatever the interleaving of concurrent [handle()] invocations
    for the requests [rs] (each observing under the ledger's lock), once
    all of them have completed every expectation's observed count has
    grown by exactly the number of requests of [rs] its matcher matches:
    no increment is lost and none is counted twice. *)
Theorem concurrent_handles_count_exactly (E : list Expectation)
    (rs : list JsonRpcRequest) (c : Concurrent)
    (Hrun : csteps (start E rs) c)
    (Hdone : all_completed (invocations c) = true) :
  ledger c = bump_ledger E rs
  /\ forall i e, nth_error E i = Some e ->
       exists e', nth_error (ledger c) i = Some e'
                  /\ matcher e' = matcher e
                  /\ requiredCount e' = requiredCount e
                  /\ observedCount e' = observedCount e + count_matching (matcher e) rs.
Proof.
  destruct (cinv_steps E rs _ _ Hrun (cinv_start E rs)) as (Hfst & Hled & _ & _).
  assert (Hc : completed_reqs (invocations c) = rs).
  { unfold completed_reqs. rewrite forallb_filter_id by exact Hdone. exact Hfst. }
  rewrite Hc in Hled. split; [exact Hled |].
  intros i e Hi. rewrite Hled. unfold bump_ledger.
  rewrite nth_error_map, Hi. simpl. eexists. repeat split; reflexivity.
Qed.

Lemma concurrent_handles_count_exactly_witness :
  exists c,
    csteps (start [mkExpectation (fun r => String.eqb (method r) "eth_blockNumber") 2 0]
                  [req_block; req_balance; req_block]) c
    /\ all_completed (invocations c) = true
    /\ map observedCount (ledger c) = [2].
Proof.
  assert (Hrun : exists c,
    csteps (start [mkExpectation (fun r => String.eqb (method r) "eth_blockNumber") 2 0]
                  [req_block; req_balance; req_block]) c
    /\ all_completed (invocations c) = true).
  { eexists. split.
    - (* invocation 2 runs first, then 0, then 1 *)
      eapply csteps_step; [apply (step_enter _ 2 req_block); reflexivity |].
      eapply csteps_step; [apply (step_leave _ 2 req_block); reflexivity |].
      eapply csteps_step; [apply (step_enter _ 0 req_block); reflexivity |].
      eapply csteps_step; [apply (step_leave _ 0 req_block); reflexivity |].
      eapply csteps_step; [apply (step_enter _ 1 req_balance); reflexivity |].
      eapply csteps_step; [apply (step_leave _ 1 req_balance); reflexivity |].
      apply csteps_refl.
    - reflexivity. }
  destruct Hrun as (c & Hc & Hd).
  exists c. split; [exact Hc |]. split; [exact Hd |].
  rewrite (proj1 (concurrent_handles_count_exactly _ _ c Hc Hd)). reflexivity.
Defined.

(** C9: [AbstractServer] cannot be instantiated by client code: its
    constructor is protected and the class is not exported.  Every
    server object a client obtains, by [new] or by [createStubServer],
    is an [HttpServer], a [WsServer] or an [IpcServer] built from one
    address string, and arises from that class's constructor or from
    [createStubServer]. *)
Theorem servers_only_from_transport_constructors (e : ClientExpr)
    (srv : ServerInstance)
    (He : eval_client e = Some srv) :
  ctor_visibility (class_decl AbstractServer) = Protected
  /\ is_exported_class AbstractServer = false
  /\ In (instance_class srv) [HttpServer; WsServer; IpcServer]
  /\ (exists a, instance_args srv = [a])
  /\ ((exists a, e = NewExpr (instance_class srv) [a])
      \/ (exists t a, e = CallCreateStubServer t a)).
Proof.
  split; [reflexivity |]. split; [reflexivity |].
  destruct e as [c args | t a]; simpl in He.
  - destruct (client_may_construct c args) eqn:Hm; [| discriminate].
    injection He as <-. simpl.
    destruct c; unfold client_may_construct in Hm; simpl in Hm;
      [discriminate | ..];
      (destruct args as [| a [| b args]]; simpl in Hm; try discriminate);
      (split; [simpl; tauto |]); (split; [exists a; reflexivity |]);
      left; exists a; reflexivity.
  - unfold createStubServer in He.
    destruct (String.eqb t "HTTP"); [| destruct (String.eqb t "WS");
      [| destruct (String.eqb t "IPC")]];
      try discriminate; injection He as <-; simpl;
      (split; [tauto |]); (split; [exists a; reflexivity |]);
      right; exists t, a; reflexivity.
Qed.

Lemma servers_only_from_transport_constructors_witness :
  eval_client (CallCreateStubServer "WS" "ws://localhost:1337")
    = Some (mkInstance WsServer ["ws://localhost:1337"])
  /\ eval_client (NewExpr AbstractServer []) = None
  /\ In WsServer [HttpServer; WsServer; IpcServer].
Proof.
  split; [reflexivity |]. split; [reflexivity |].
  exact (proj1 (proj2 (proj2 (servers_only_from_transport_constructors
           (CallCreateStubServer "WS" "ws://localhost:1337")
           (mkInstance WsServer ["ws://localhost:1337"]) eq_refl)))).
Defined.

(** C10: [HttpServer], [WsServer] and [IpcServer] extend
    [AbstractServer] and declare nothing but a constructor taking one
    address string; every member lookup on them resolves to the member
    of [AbstractServer], so each exposes the seven test-facing
    operations with the signatures [AbstractServer] declares. *)
Theorem transports_inherit_abstract_server_api (c : ClassName)
    (Hc : In c [HttpServer; WsServer; IpcServer]) :
  class_parent (class_decl c) = Some AbstractServer
  /\ class_methods (class_decl c) = []
  /\ ctor_params (class_decl c) = [("address", TString)]
  /\ (forall n, find_method c n = find_method AbstractServer n)
  /\ map method_name (class_methods (class_decl AbstractServer))
     = ["addExpectation"; "addExpectations"; "addResponder"; "clearResponders";
        "assertExpectations"; "mine"; "destroy"]
  /\ (forall m, In m (class_methods (class_decl AbstractServer)) ->
        find_method c (method_name m) = Some m).
Proof.
  assert (Habs : forall m, In m (class_methods (class_decl AbstractServer)) ->
                   find_method AbstractServer (method_name m) = Some m).
  { intros m Hm. simpl in Hm.
    repeat (destruct Hm as [<- | Hm]; [reflexivity |]). contradiction. }
  assert (Hinh : forall n, find_method c n = find_method AbstractServer n).
  { intro n. simpl in Hc.
    destruct Hc as [<- | [<- | [<- | []]]]; reflexivity. }
  split; [| split; [| split; [| split; [exact Hinh | split; [reflexivity |]]]]].
  - simpl in Hc. destruct Hc as [<- | [<- | [<- | []]]]; reflexivity.
  - simpl in Hc. destruct Hc as [<- | [<- | [<- | []]]]; reflexivity.
  - simpl in Hc. destruct Hc as [<- | [<- | [<- | []]]]; reflexivity.
  - intros m Hm. rewrite Hinh. exact (Habs m Hm).
Qed.

Lemma transports_inherit_abstract_server_api_witness :
  In IpcServer [HttpServer; WsServer; IpcServer]
  /\ find_method IpcServer "mine" = Some (mkMethod "mine" [] TVoid).
Proof.
  split; [simpl; tauto |].
  exact (proj1 (proj2 (proj2 (proj2 (transports_inherit_abstract_server_api IpcServer
           ltac:(simpl; tauto))))) "mine").
Defined.

(** * Further properties of the server *)

(** ** Lemmas on whole call sequences *)

Lemma exec_call_blocks (c : Call) (s s' : Server) :
  exec_call c s = inr s' ->
  blocks s' = blocks s
  \/ blocks s' = blocks s ++ [mkBlock (lastBlockNumber (blocks s) + 1) (pending s)].
Proof.
  destruct c; simpl;
    unfold addExpectation, addExpectations, addResponder, clearResponders,
      recordPendingTransaction, mine, when_active, handle;
    intro H; destruct (destroyed s); simpl in H; try discriminate;
    injection H as <-; simpl; first [left; reflexivity | right; reflexivity].
Qed.


Lemma numbered_last (g : Z) (bs : list MinedBlock) :
  numbered_from g bs -> (lastBlockNumber bs + 1 = g + Z.of_nat (List.length bs))%Z.
Proof.
  intros [Hne Hnum].
  destruct (exists_last Hne) as (l & x & ->).
  unfold lastBlockNumber. rewrite last_number_snoc.
  rewrite (Hnum (List.length l) x).
  - rewrite length_app. simpl. lia.
  - rewrite nth_error_app2 by lia. rewrite Nat.sub_diag. reflexivity.
Qed.

Lemma numbered_snoc (g : Z) (bs : list MinedBlock) (txs : list Transaction) :
  numbered_from g bs ->
  numbered_from g (bs ++ [mkBlock (lastBlockNumber bs + 1) txs]).
Proof.
  intro H. pose proof (numbered_last g bs H) as Hl.
  destruct H as [Hne Hnum]. split.
  - destruct bs; [contradiction | discriminate].
  - intros k b Hk.
    destruct (Nat.lt_ge_cases k (List.length bs)) as [Hlt | Hge].
    + rewrite nth_error_app1 in Hk by exact Hlt. exact (Hnum k b Hk).
    + rewrite nth_error_app2 in Hk by exact Hge.
      destruct (k - List.length bs) as [| j] eqn:Hj.
      * injection Hk as <-. simpl. rewrite Hl. f_equal. lia.
      * destruct j; discriminate.
Qed.

Lemma bump_ledger_nil (E : list Expectation) : bump_ledger E [] = E.
Proof.
  unfold bump_ledger. rewrite <- (map_id E) at 2. apply map_ext.
  intros []. simpl. rewrite Nat.add_0_r. reflexivity.
Qed.

Lemma fold_observe_bump (E : list Expectation) (L rs : list JsonRpcRequest) :
  fold_left observe rs (bump_ledger E L) = bump_ledger E (L ++ rs).
Proof.
  revert L. induction rs as [| r rs IH]; intro L; simpl.
  - rewrite app_nil_r. reflexivity.
  - rewrite (observe_bump_ledger E L (L ++ [r]) r).
    + rewrite IH, <- app_assoc. reflexivity.
    + intro m. unfold count_matching. rewrite filter_app, length_app. simpl.
      destruct (m r); simpl; lia.
Qed.

(** ** Properties *)




(** Handling requests one after another on a live server raises each
    expectation's observed count by the number of those requests its
    matcher matches, and changes nothing else in the ledger. *)
Theorem handle_all_counts_matches (s : Server) (rs : list JsonRpcRequest)
    (Hactive : destroyed s = false) :
  exists s', handle_all rs s = inr s'
             /\ expectations s' = bump_ledger (expectations s) rs
             /\ responders s' = responders s /\ blocks s' = blocks s
             /\ pending s' = pending s /\ destroyed s' = false.
Proof.
  rewrite handle_all_active by exact Hactive.
  eexists. split; [reflexivity |]. simpl.
  rewrite <- (bump_ledger_nil (expectations s)) at 1.
  rewrite fold_observe_bump. simpl. repeat split; assumption.
Qed.

Lemma handle_all_counts_matches_witness :
  exists s', handle_all [req_block; req_balance; req_block]
               (set_expectations (init_server 0 [])
                  [mkExpectation (fun r => String.eqb (method r) "eth_blockNumber") 1 0;
                   mkExpectation (fun r => String.eqb (method r) "eth_getBalance") 1 0])
               = inr s'
             /\ map observedCount (expectations s') = [2; 1].
Proof.
  destruct (handle_all_counts_matches
              (set_expectations (init_server 0 [])
                 [mkExpectation (fun r => String.eqb (method r) "eth_blockNumber") 1 0;
                  mkExpectation (fun r => String.eqb (method r) "eth_getBalance") 1 0])
              [req_block; req_balance; req_block] eq_refl)
    as (s' & H & He & _).
  exists s'. split; [exact H |]. rewrite He. reflexivity.
Defined.



(** The block store is append-only: whatever calls are made, the blocks
    a server holds stay, unchanged and in order, at the front of its
    store. *)
Theorem blocks_append_only (cs : list Call) (s : Server) :
  exists later, blocks (run_calls cs s) = blocks s ++ later.
Proof.
  revert s. induction cs as [| c cs IH]; intro s; simpl.
  - exists []. rewrite app_nil_r. reflexivity.
  - destruct (exec_call c s) as [f | s'] eqn:Hc; [apply IH |].
    destruct (IH s') as (later & Hl). rewrite Hl.
    destruct (exec_call_blocks c s s' Hc) as [-> | ->].
    + exists later. reflexivity.
    + eexists. rewrite <- app_assoc. reflexivity.
Qed.

Lemma numbered_run_calls (g : Z) (cs : list Call) (s : Server) :
  numbered_from g (blocks s) -> numbered_from g (blocks (run_calls cs s)).
Proof.
  revert s. induction cs as [| c cs IH]; intros s Hs; simpl; [exact Hs |].
  destruct (exec_call c s) as [f | s'] eqn:Hc; apply IH; [exact Hs |].
  destruct (exec_call_blocks c s s' Hc) as [-> | ->];
    [exact Hs | apply numbered_snoc; exact Hs].
Qed.

(** Block numbers: on a server started at genesis number [g], whatever
    calls are made, the block at position [k] of the store has number
    [g + k]; so [mine()] numbers blocks consecutively and never reuses
    a number. *)
Theorem blocks_numbered_consecutively (g : Z) (defaults : list Responder)
    (cs : list Call) (k : nat) (b : MinedBlock)
    (Hk : nth_error (blocks (run_calls cs (init_server g defaults))) k = Some b) :
  number b = (g + Z.of_nat k)%Z.
Proof.
  apply (proj2 (numbered_run_calls g cs (init_server g defaults) ltac:(
    split; [discriminate | intros [| k'] b' Hb; [injection Hb as <-; simpl; lia |
                                                  destruct k'; discriminate]]))).
  exact Hk.
Qed.

Lemma blocks_numbered_consecutively_witness :
  nth_error (blocks (run_calls [CMine; CRecordPendingTransaction (JStr "0x01");
                                CAddResponder decline; CMine]
                               (init_server 100 []))) 2
    = Some (mkBlock 102 [JStr "0x01"])
  /\ number (mkBlock 102 [JStr "0x01"]) = (100 + Z.of_nat 2)%Z.
Proof.
  split; [reflexivity |].
  exact (blocks_numbered_consecutively 100 []
           [CMine; CRecordPendingTransaction (JStr "0x01"); CAddResponder decline; CMine]
           2 (mkBlock 102 [JStr "0x01"]) eq_refl).
Defined.


